(** * HintQA: the hint-conditioned answering loop of [Code/demo.ipynb]

    A shallow embedding of the notebook's five functions
    ([generate_prompt], [generate_shots], [rag], [print_result_table] and the
    library calls they make) together with the properties of the
    prompting loop: shape of the message sequences, order of the collected
    answers, the sampling bound, fail-fast behaviour and the result table. *)

From Stdlib Require Import ZArith.
From stdpp Require Import base tactics option list strings gmap.

(** ** Text *)

(** Python [str] values are modelled as [string]: sequences of characters
    with codes below 256. *)

Definition nl : string := String (Ascii.ascii_of_nat 10) "".

(** [sep.join(items)]. *)
Fixpoint join (sep : string) (items : list string) : string :=
  match items with
  | [] => ""
  | x :: rest =>
      match rest with
      | [] => x
      | _ :: _ => x +:+ sep +:+ join sep rest
      end
  end.

(** [str.isspace] on one character, for the codes below 256. *)
Definition isspace (c : Ascii.ascii) : bool :=
  let n := Ascii.nat_of_ascii c in
  (((9 <=? n) && (n <=? 13)) || ((28 <=? n) && (n <=? 32))
   || (n =? 133) || (n =? 160))%nat.

Fixpoint lstrip (s : string) : string :=
  match s with
  | "" => ""
  | String c s' => if isspace c then lstrip s' else s
  end.

Fixpoint rstrip (s : string) : string :=
  match s with
  | "" => ""
  | String c s' =>
      match rstrip s' with
      | "" => if isspace c then "" else String c ""
      | r => String c r
      end
  end.

(** [s.strip()]. *)
Definition strip (s : string) : string := lstrip (rstrip s).

(** ** Prompt template *)

(** The f-string of [generate_prompt]; the continuation lines of the
    triple-quoted literal carry the four spaces of the function body's
    indentation. *)
Definition generate_prompt (question context : string) : string :=
  "Based on the context, answer the following question:" +:+ nl +:+
  "    Context:" +:+ nl +:+
  "    " +:+ context +:+ nl +:+
  nl +:+
  "    Question:" +:+ nl +:+
  "    " +:+ question +:+ nl +:+
  nl +:+
  "    Answer:" +:+ nl +:+
  "    ".

(** ** Data model (hinteval's [Instance], [Subset], [Dataset]) *)

Record Question := mkQuestion { question : string }.
Record Answer := mkAnswer { answer : string }.
Record Hint := mkHint { hint : string }.

Record Instance := mkInstance {
  instance_question : Question;
  answers : list Answer;
  hints : list Hint
}.

Record Subset := mkSubset { get_instances : list Instance }.

(** A dataset maps subset names to subsets; the notebook only uses
    ['entire']. *)
Abbreviation Dataset := (gmap string Subset).

(** Chat messages are the two-key dicts [{"role": .., "content": ..}]. *)
Record Message := mkMessage { role : string; content : string }.

(** The request and the reply of [chat.completions.create]. *)
Record Request := mkRequest { model : string; messages : list Message }.

Module Completion.
Record message_t := mkMessage { content : option string }.
Record choice := mkChoice { message : message_t }.
Record t := mk { choices : list choice }.
End Completion.

(** ** Exceptions and results *)

Inductive exn :=
| KeyError
| ValueError
| IndexError
| AttributeError
| APIError (detail : string).

Inductive result (A : Type) :=
| Ok (a : A)
| Raise (e : exn).
Arguments Ok {A} a.
Arguments Raise {A} e.

(** [xs[0]]. *)
Definition index0 {A} (xs : list A) : result A :=
  match xs with
  | [] => Raise IndexError
  | x :: _ => Ok x
  end.

(** ** The random source

    [random.sample(population, k)] returns the elements at [k] pairwise
    distinct positions of the population, in the order drawn.  Which
    positions is decided by the generator; the interface below is its
    contract, and [PoolSource] further down implements it with the
    selection scheme CPython uses for small populations. *)
Class RandomSource := {
  Random : Type;
  draw : nat -> nat -> Random -> list nat * Random;
  draw_length : forall n k g, k <= n -> length (draw n k g).1 = k;
  draw_bound : forall n k g, k <= n -> Forall (fun i => i < n) (draw n k g).1;
  draw_NoDup : forall n k g, k <= n -> NoDup (draw n k g).1
}.

(** The remote completion service: its reply may depend on everything it
    was sent before. *)
Definition Endpoint := list Request -> Request -> result Completion.t.

(** The PrettyTable object: field names and the rows added so far. *)
Record PrettyTable := mkTable {
  field_names : list string;
  rows : list (list string)
}.

(** What [print] was given: nothing (an empty line) or a table, whose
    rendering as text is PrettyTable's. *)
Inductive printed :=
| EmptyLine
| Table (t : PrettyTable).

(** What the process can observe or change: the generator state, the
    requests sent to the endpoint (oldest first) and what was printed. *)
Record World `{RandomSource} := mkWorld {
  random : Random;
  requests : list Request;
  stdout : list printed
}.
Arguments mkWorld {_} _ _ _.

(** Computations that read and update the world and may raise. *)
Definition M `{RandomSource} (A : Type) : Type := World -> result A * World.

#[export] Instance M_ret `{RandomSource} : MRet M :=
  fun A (a : A) (w : World) => (Ok a, w).

#[export] Instance M_bind `{RandomSource} : MBind M :=
  fun A B (k : A -> M B) (c : M A) (w : World) =>
    match c w with
    | (Ok a, w') => k a w'
    | (Raise e, w') => (Raise e, w')
    end.

Definition lift `{RandomSource} {A} (r : result A) : M A := fun w => (r, w).

(** A [for] loop over a list that threads the loop's variables [acc]. *)
Fixpoint for_each `{RandomSource} {A S} (xs : list A) (acc : S)
    (body : A -> S -> M S) : M S :=
  match xs with
  | [] => mret acc
  | x :: xs' => acc' ← body x acc; for_each xs' acc' body
  end.

(** ** Library calls *)

(** [dataset[name]]. *)
Definition getitem (dataset : Dataset) (name : string) : result Subset :=
  match dataset !! name with
  | Some subset => Ok subset
  | None => Raise KeyError
  end.

(** [random.sample(population, k)]. *)
Definition random_sample `{RandomSource} {A} (population : list A) (k : Z)
    : M (list A) := fun w =>
  let n := length population in
  if decide (0 <= k <= Z.of_nat n)%Z then
    let '(positions, g) := draw n (Z.to_nat k) (random w) in
    (Ok (omap (fun i => population !! i) positions),
     mkWorld g (requests w) (stdout w))
  else (Raise ValueError, w).

(** [PrettyTable(field_names)]: the names must be unique. *)
Definition PrettyTable_new (names : list string) : result PrettyTable :=
  if decide (NoDup names) then Ok (mkTable names []) else Raise ValueError.

(** [table.add_row(row)]: the row must have one value per field. *)
Definition add_row (table : PrettyTable) (row : list string)
    : result PrettyTable :=
  if decide (length row = length (field_names table))
  then Ok (mkTable (field_names table) (rows table ++ [row]))
  else Raise ValueError.

(** [print(x)]. *)
Definition print `{RandomSource} (x : printed) : M unit := fun w =>
  (Ok tt, mkWorld (random w) (requests w) (stdout w ++ [x])).

Section Pipeline.

Context `{RandomSource}.
Variable endpoint : Endpoint.

(** [pipeline.chat.completions.create(model=.., messages=..)]: the request
    is sent whether or not the service answers. *)
Definition create (model : string) (messages : list Message)
    : M Completion.t := fun w =>
  let request := mkRequest model messages in
  (endpoint (requests w) request,
   mkWorld (random w) (requests w ++ [request]) (stdout w)).

(** ** The notebook's functions *)

Definition generate_shots (dataset : Dataset) (num_of_shots : Z)
    : M (list Message) :=
  let examples := [] in
  subset ← lift (getitem dataset "entire");
  example_shots ← random_sample (get_instances subset) num_of_shots;
  for_each example_shots examples (fun example examples =>
    let example_question := question (instance_question example) in
    let example_context := join nl (hint <$> hints example) in
    first ← lift (index0 (answers example));
    let example_answer := answer first in
    let prompt := generate_prompt example_question example_context in
    let examples := examples ++ [mkMessage "user" prompt] in
    let examples := examples ++ [mkMessage "assistant" example_answer] in
    mret examples).

Definition system_prompt : string :=
  "You are a precise answering assistant. Always provide the shortest possible answer to factoid questions. Avoid explanations or additional details.".

Definition model_name : string := "meta-llama/Llama-3.3-70B-Instruct-Turbo".

(** One pass of the loop of [rag] for [instance], with the number of
    exemplars requested from [generate_shots] as [num_of_shots]. *)
Definition rag_body (dataset : Dataset) (num_of_shots : Z)
    (instance : Instance) (acc : list string * list string)
    : M (list string * list string) :=
  let '(predicted_answers, ground_truths) := acc in
  let messages := [mkMessage "system" system_prompt] in
  example_shots ← generate_shots dataset num_of_shots;
  let messages := messages ++ example_shots in
  let instance_question := question (instance_question instance) in
  let instance_context := join nl (hint <$> hints instance) in
  first ← lift (index0 (answers instance));
  let instance_answer := answer first in
  let prompt := generate_prompt instance_question instance_context in
  let messages := messages ++ [mkMessage "user" prompt] in
  reply ← create model_name messages;
  choice ← lift (index0 (Completion.choices reply));
  text ← lift (match Completion.content (Completion.message choice) with
               | Some s => Ok s
               | None => Raise AttributeError
               end);
  let predicted_answer := strip text in
  mret (predicted_answers ++ [predicted_answer],
        ground_truths ++ [instance_answer]).

(** The loop of [rag] with the exemplar count as a parameter. *)
Definition rag_with (num_of_shots : Z) (dataset : Dataset)
    : M (list string * list string) :=
  subset ← lift (getitem dataset "entire");
  for_each (get_instances subset) ([], []) (rag_body dataset num_of_shots).

(** [rag(dataset)]: the notebook asks for 5 exemplars per instance.  The
    progress bar of [tqdm] iterates in list order and writes to the error
    stream only. *)
Definition rag (dataset : Dataset) : M (list string * list string) :=
  rag_with 5 dataset.

End Pipeline.

Definition print_result_table `{RandomSource}
    (predicted_answers correct_answers : list string) : M unit :=
  table ← lift (PrettyTable_new ["Predicted"; "Ground Truth"]);
  table ← for_each (zip predicted_answers correct_answers) table
            (fun '(predicted, ground) table =>
               lift (add_row table [predicted; ground]));
  _ ← print EmptyLine;
  print (Table table).

(** ** Building the dataset and attaching hints *)

(** [Dataset(name=..)]: a dataset without subsets.  The name labels the
    dataset and is not read again by the notebook. *)
Definition Dataset_new (name : string) : Dataset := ∅.

(** [Subset(name)]: an empty subset, with the name it is filed under. *)
Definition Subset_new (name : string) : string * Subset :=
  (name, mkSubset []).

(** [dataset.add_subset(subset)]. *)
Definition add_subset (dataset : Dataset) (subset : string * Subset)
    : Dataset :=
  <[subset.1 := subset.2]> dataset.

(** [subset.add_instance(instance)]: instances are kept in the order they
    were added. *)
Definition add_instance (subset : Subset) (instance : Instance) : Subset :=
  mkSubset (get_instances subset ++ [instance]).

(** [xs[start:stop]] for bounds that are not negative. *)
Definition slice {A} (start stop : nat) (xs : list A) : list A :=
  take (stop - start) (drop start xs).

Section Upstream.

Context `{RandomSource}.

(** The two services the notebook relies on before the loop runs:
    [Dataset.download_and_load_dataset], and [AnswerAgnostic(..).generate],
    which works on the instance objects it is handed.  The latter either
    raises or leaves every object of the list in a new state, given here
    by position; nothing is assumed about which fields it touches. *)
Variable download_and_load_dataset : string -> result Dataset.
Variable answer_agnostic_generate :
  list Instance -> result (nat -> Instance -> Instance).
Variable endpoint : Endpoint.

Definition generating_dataset : M Dataset :=
  let dataset := Dataset_new "my_dataset" in
  let dataset := add_subset dataset (Subset_new "entire") in
  kg_dataset ← lift (download_and_load_dataset "KG-Hint");
  kg_subset ← lift (getitem kg_dataset "entire");
  let kg_instances_partial := slice 10 30 (get_instances kg_subset) in
  for_each kg_instances_partial dataset (fun instance dataset =>
    let new_instance :=
      mkInstance (instance_question instance) (answers instance) [] in
    subset ← lift (getitem dataset "entire");
    mret (<["entire" := add_instance subset new_instance]> dataset)).

(** [generate_hints(dataset)] returns nothing and changes the instances in
    place; the dataset with the instances in their new state is threaded
    on. *)
Definition generate_hints (dataset : Dataset) : M Dataset :=
  subset ← lift (getitem dataset "entire");
  let dataset_instances := get_instances subset in
  update ← lift (answer_agnostic_generate dataset_instances);
  mret (<["entire" := mkSubset (imap update dataset_instances)]> dataset).

Definition pipeline : M unit :=
  dataset ← generating_dataset;
  dataset ← generate_hints dataset;
  out ← rag endpoint dataset;
  let '(predicted_answers, ground_truths) := out in
  print_result_table predicted_answers ground_truths.

End Upstream.

(** ** A generator: selection from a pool

    CPython's [random.sample] copies the population into [pool] and, for
    [i] in [range(k)], takes [j = randbelow(n - i)], stores [pool[j]] as the
    [i]-th result and moves [pool[n - i - 1]] into the vacancy.  The
    generator's raw output is a sequence of naturals read at a cursor. *)
Record Stream := mkStream { raw : nat -> nat; cursor : nat }.

Definition randbelow (n : nat) (g : Stream) : nat * Stream :=
  (raw g (cursor g) `mod` n, mkStream (raw g) (S (cursor g))).

(** [m] is [n - i], the length of the part of [pool] not yet selected; the
    two lookups are in range whenever [k <= m <= length pool]. *)
Fixpoint pool_select (pool : list nat) (m k : nat) (g : Stream)
    : list nat * Stream :=
  match k with
  | 0 => ([], g)
  | S k' =>
      let '(j, g) := randbelow m g in
      match pool !! j, pool !! (m - 1) with
      | Some x, Some y =>
          let '(result, g) := pool_select (<[j:=y]> pool) (m - 1) k' g in
          (x :: result, g)
      | _, _ => ([], g)
      end
  end.

Definition pool_draw (n k : nat) (g : Stream) : list nat * Stream :=
  pool_select (seq 0 n) n k g.

(** ** Specification vocabulary *)

(** The first candidate answer of an instance, when it has one. *)
Definition first_answer (instance : Instance) : option string :=
  answer <$> head (answers instance).

Definition has_answer (instance : Instance) : Prop :=
  is_Some (head (answers instance)).

(** The context of an instance: its hints joined by newlines. *)
Definition context_of (instance : Instance) : string :=
  join nl (hint <$> hints instance).

(** The user message that carries an instance's question and hints. *)
Definition user_message (instance : Instance) : Message :=
  mkMessage "user"
    (generate_prompt (question (instance_question instance))
                     (context_of instance)).

(** The user/assistant pair an exemplar contributes. *)
Definition exemplar_pair (example : Instance) : list Message :=
  [user_message example;
   mkMessage "assistant" (default "" (first_answer example))].

(** The ordering invariant of a message sequence for [target]: the system
    message, then the pairs of some exemplars, then the target's message. *)
Definition ordered_for (target : Instance) (examples : list Instance)
    (ms : list Message) : Prop :=
  ms = [mkMessage "system" system_prompt]
       ++ (examples ≫= exemplar_pair)
       ++ [user_message target].

(** The request the loop sends for [target] with exemplars [examples]. *)
Definition request_for (target : Instance) (examples : list Instance)
    : Request :=
  mkRequest model_name
    ([mkMessage "system" system_prompt]
     ++ (examples ≫= exemplar_pair)
     ++ [user_message target]).

(** Exemplars as the loop gets them for a pool: [k] instances of the pool,
    each with a candidate answer. *)
Definition exemplars_of (pool : list Instance) (k : Z)
    (examples : list Instance) : Prop :=
  length examples = Z.to_nat k /\
  Forall has_answer examples /\
  Forall (fun example => example ∈ pool) examples.

(** The text of a reply's first choice: [choices[0].message.content]. *)
Definition reply_text (reply : Completion.t) : result string :=
  match Completion.choices reply with
  | [] => Raise IndexError
  | choice :: _ =>
      match Completion.content (Completion.message choice) with
      | Some s => Ok s
      | None => Raise AttributeError
      end
  end.

(** The prediction records: the two returned lists read side by side. *)
Definition records (out : list string * list string)
    : list (string * string) :=
  zip out.1 out.2.

(** An instance as [generating_dataset] copies it: the same question and
    answers, no hints. *)
Definition without_hints (instance : Instance) : Instance :=
  mkInstance (instance_question instance) (answers instance) [].

(** The instances [generating_dataset] takes from a source list. *)
Definition selected (kg_instances : list Instance) : list Instance :=
  without_hints <$> slice 10 30 kg_instances.

(** ** The two-instance pool of the end-to-end scenario *)

Definition instance_A : Instance :=
  mkInstance (mkQuestion "Capital of France?") [mkAnswer "Paris"]
             [mkHint "Paris is the capital of France."].

Definition instance_B : Instance :=
  mkInstance (mkQuestion "Year WWII ended?") [mkAnswer "1945"] [].

Definition two_instance_dataset : Dataset :=
  {[ "entire" := mkSubset [instance_A; instance_B] ]}.

(** A pool of five, the least for which [rag] can draw its exemplars. *)
Definition instance_C : Instance :=
  mkInstance (mkQuestion "Largest planet?") [mkAnswer "Jupiter"; mkAnswer "Jove"]
             [mkHint "It is a gas giant."; mkHint "It has a great red spot."].

Definition instance_D : Instance :=
  mkInstance (mkQuestion "Author of Hamlet?") [mkAnswer "Shakespeare"]
             [mkHint "He was born in Stratford."].

Definition instance_E : Instance :=
  mkInstance (mkQuestion "Chemical symbol of gold?") [mkAnswer "Au"] [].

Definition five_instances : list Instance :=
  [instance_A; instance_B; instance_C; instance_D; instance_E].

Definition five_instance_dataset : Dataset :=
  {[ "entire" := mkSubset five_instances ]}.

(** An endpoint that always answers with one choice, and one that answers
    its first request only. *)
Definition paris_reply : Completion.t :=
  Completion.mk [Completion.mkChoice (Completion.mkMessage (Some " Paris "))].

Definition steady_endpoint : Endpoint := fun _ _ => Ok paris_reply.

Definition one_time_endpoint : Endpoint := fun history _ =>
  match history with
  | [] => Ok paris_reply
  | _ :: _ => Raise (APIError "rate limit")
  end.

Definition stream0 : Stream := mkStream (fun i => 7 * i + 3) 0.

(** A source dataset of sixteen instances, one of twelve, and a hint
    generator that gives every instance the same single hint. *)
Definition sixteen_instances : list Instance :=
  five_instances ++ five_instances ++ five_instances ++ [instance_A].

Definition kg_download (instances : list Instance) : string -> result Dataset :=
  fun name =>
    if decide (name = "KG-Hint")
    then Ok {[ "entire" := mkSubset instances ]}
    else Raise KeyError.



(** A pool in which one instance has no candidate answer. *)
Definition instance_N : Instance :=
  mkInstance (mkQuestion "Unanswered?") [] [mkHint "Nobody knows."].

Definition answerless_dataset : Dataset :=
  {[ "entire" := mkSubset [instance_N; instance_A] ]}.

Definition one_hint_generate
    : list Instance -> result (nat -> Instance -> Instance) :=
  fun _ => Ok (fun _ instance =>
                 mkInstance (instance_question instance) (answers instance)
                            [mkHint "Think of the obvious."]).

(** ** Properties of the pool selection *)

Lemma randbelow_lt (m : nat) (g : Stream) : 0 < m -> (randbelow m g).1 < m.
Proof. intros Hm. simpl. apply Nat.mod_upper_bound. lia. Qed.

(** Moving the last live element into slot [j] leaves, together with the
    element taken out, exactly the live part. *)
Lemma vacancy_Permutation (pool : list nat) (m j x y : nat) :
  j < m -> m <= length pool ->
  pool !! j = Some x -> pool !! (m - 1) = Some y ->
  x :: take (m - 1) (<[j:=y]> pool) ≡ₚ take m pool.
Proof.
  intros Hj Hm Hx Hy.
  assert (Hlast : take m pool = take (m - 1) pool ++ [y]).
  { replace m with (S (m - 1)) at 1 by lia. by apply take_S_r. }
  destruct (decide (j = m - 1)) as [->|Hne].
  - rewrite Hx in Hy. injection Hy as ->.
    rewrite list_insert_id by done.
    rewrite Hlast. by rewrite Permutation_cons_append.
  - rewrite take_insert_lt by lia.
    assert (Ht : take (m - 1) pool !! j = Some x).
    { rewrite lookup_take_lt by lia. done. }
    rewrite Hlast, <- (take_drop_middle _ _ _ Ht).
    set (t1 := take j (take (m - 1) pool)).
    set (t2 := drop (S j) (take (m - 1) pool)).
    assert (Hlen : j = length t1 + 0).
    { unfold t1. rewrite !length_take. lia. }
    rewrite Hlen at 1. rewrite insert_app_r. simpl.
    rewrite <- Permutation_cons_append, <- !Permutation_middle.
    apply perm_swap.
Qed.

Lemma pool_select_submseteq (k : nat) : forall (pool : list nat) (m : nat) (g : Stream),
  k <= m -> m <= length pool ->
  (pool_select pool m k g).1 ⊆+ take m pool.
Proof.
  induction k as [|k IH]; intros pool m g Hk Hm; simpl.
  - apply submseteq_nil_l.
  - pose proof (randbelow_lt m g ltac:(lia)) as Hj. simpl in Hj.
    destruct (lookup_lt_is_Some_2 pool (raw g (cursor g) `mod` m) ltac:(lia)) as [x Hx].
    destruct (lookup_lt_is_Some_2 pool (m - 1) ltac:(lia)) as [y Hy].
    rewrite Hx, Hy.
    specialize (IH (<[raw g (cursor g) `mod` m:=y]> pool) (m - 1)
                   (mkStream (raw g) (S (cursor g)))).
    destruct (pool_select _ (m - 1) k _) as [result g'] eqn:E. simpl in *.
    rewrite <- (vacancy_Permutation pool m _ x y Hj Hm Hx Hy).
    apply submseteq_skip, IH; [lia|]. rewrite length_insert. lia.
Qed.

Lemma pool_select_length (k : nat) : forall (pool : list nat) (m : nat) (g : Stream),
  k <= m -> m <= length pool ->
  length (pool_select pool m k g).1 = k.
Proof.
  induction k as [|k IH]; intros pool m g Hk Hm; simpl; [done|].
  pose proof (randbelow_lt m g ltac:(lia)) as Hj. simpl in Hj.
  destruct (lookup_lt_is_Some_2 pool (raw g (cursor g) `mod` m) ltac:(lia)) as [x Hx].
  destruct (lookup_lt_is_Some_2 pool (m - 1) ltac:(lia)) as [y Hy].
  rewrite Hx, Hy.
  specialize (IH (<[raw g (cursor g) `mod` m:=y]> pool) (m - 1)
                 (mkStream (raw g) (S (cursor g)))).
  destruct (pool_select _ (m - 1) k _) as [result g'] eqn:E. simpl in *.
  f_equal. apply IH; [lia|]. rewrite length_insert. lia.
Qed.

Lemma pool_draw_submseteq (n k : nat) (g : Stream) :
  k <= n -> (pool_draw n k g).1 ⊆+ seq 0 n.
Proof.
  intros Hk. unfold pool_draw.
  pose proof (pool_select_submseteq k (seq 0 n) n g Hk) as Hs.
  rewrite length_seq in Hs. specialize (Hs (le_n _)).
  rewrite take_ge in Hs by (rewrite length_seq; lia). done.
Qed.

Lemma pool_draw_length (n k : nat) (g : Stream) :
  k <= n -> length (pool_draw n k g).1 = k.
Proof.
  intros Hk. unfold pool_draw. apply pool_select_length; [done|].
  by rewrite length_seq.
Qed.

Lemma pool_draw_bound (n k : nat) (g : Stream) :
  k <= n -> Forall (fun i => i < n) (pool_draw n k g).1.
Proof.
  intros Hk. apply Forall_forall. intros i Hi.
  pose proof (pool_draw_submseteq n k g Hk) as Hsub.
  apply (elem_of_submseteq _ _ _ Hi), elem_of_seq in Hsub. lia.
Qed.

Lemma pool_draw_NoDup (n k : nat) (g : Stream) :
  k <= n -> NoDup (pool_draw n k g).1.
Proof.
  intros Hk.
  destruct (submseteq_Permutation _ _ (pool_draw_submseteq n k g Hk)) as [rest Hp].
  pose proof (NoDup_seq 0 n) as Hnd. rewrite Hp in Hnd.
  by apply NoDup_app in Hnd as [? _].
Qed.

#[export] Instance PoolSource : RandomSource := {|
  Random := Stream;
  draw := pool_draw;
  draw_length := pool_draw_length;
  draw_bound := pool_draw_bound;
  draw_NoDup := pool_draw_NoDup
|}.

(** The world before anything ran, with the pool generator. *)
Definition world0 : World := mkWorld stream0 [] [].

(** ** Text lemmas *)

Lemma join_nil (sep : string) : join sep [] = "".
Proof. reflexivity. Qed.

Lemma join_singleton (sep x : string) : join sep [x] = x.
Proof. reflexivity. Qed.

Lemma join_cons (sep x y : string) (rest : list string) :
  join sep (x :: y :: rest) = x +:+ sep +:+ join sep (y :: rest).
Proof. reflexivity. Qed.

(** [join] is the Standard Library's [String.concat]. *)
Lemma join_concat (sep : string) (items : list string) :
  join sep items = String.concat sep items.
Proof.
  induction items as [|x [|y rest] IH]; [done..|].
  rewrite join_cons, IH. reflexivity.
Qed.

Lemma append_nil_l (b : string) : "" +:+ b = b.
Proof. reflexivity. Qed.

Lemma append_cons (ch : Ascii.ascii) (a b : string) :
  String ch a +:+ b = String ch (a +:+ b).
Proof. reflexivity. Qed.

Lemma append_assoc (a b c : string) : (a +:+ b) +:+ c = a +:+ (b +:+ c).
Proof.
  induction a as [|ch a IH]; [done|].
  rewrite !append_cons. by rewrite IH.
Qed.

Lemma append_nonempty (a b : string) : b <> "" -> a +:+ b <> "".
Proof. destruct a; [done|]. rewrite append_cons. discriminate. Qed.

(** Trailing whitespace is removed from the last piece only, once that
    piece has something else in it. *)
Lemma rstrip_append (a b : string) :
  rstrip b <> "" -> rstrip (a +:+ b) = a +:+ rstrip b.
Proof.
  intros Hb. induction a as [|ch a IH]; [done|].
  rewrite !append_cons. simpl. rewrite IH.
  pose proof (append_nonempty a (rstrip b) Hb) as Hne.
  destruct (a +:+ rstrip b); [done|reflexivity].
Qed.

(** ** Loop lemmas *)

Section Loops.

Context `{RandomSource}.

Lemma bind_eq {A B} (c : M A) (k : A -> M B) (w : World) :
  (c ≫= k) w =
  match c w with
  | (Ok a, w') => k a w'
  | (Raise e, w') => (Raise e, w')
  end.
Proof. reflexivity. Qed.

Lemma for_each_app {A S} (xs ys : list A) (body : A -> S -> M S) :
  forall (acc : S) (w : World),
  for_each (xs ++ ys) acc body w =
  match for_each xs acc body w with
  | (Ok acc', w') => for_each ys acc' body w'
  | (Raise e, w') => (Raise e, w')
  end.
Proof.
  induction xs as [|x xs IH]; intros acc w; simpl; [done|].
  rewrite !bind_eq. destruct (body x acc w) as [[acc'|e] w']; [|done].
  apply IH.
Qed.

(** A loop whose body only extends the accumulator by the exemplar's pair,
    or raises [IndexError] for an exemplar without answers. *)
Lemma for_each_exemplars (body : Instance -> list Message -> M (list Message)) :
  (forall example acc w,
     body example acc w =
     match head (answers example) with
     | Some _ => (Ok (acc ++ exemplar_pair example), w)
     | None => (Raise IndexError, w)
     end) ->
  forall (examples : list Instance) (acc : list Message) (w : World),
  for_each examples acc body w =
  if decide (Forall has_answer examples)
  then (Ok (acc ++ (examples ≫= exemplar_pair)), w)
  else (Raise IndexError, w).
Proof.
  intros Hbody examples.
  induction examples as [|example examples IH]; intros acc w.
  - destruct (decide (Forall has_answer [])) as [_|Hnot].
    + simpl. by rewrite app_nil_r.
    + destruct Hnot. constructor.
  - change (for_each (example :: examples) acc body w)
      with ((body example acc ≫= fun acc' => for_each examples acc' body) w).
    rewrite bind_eq, Hbody.
    destruct (head (answers example)) as [first|] eqn:Hfirst.
    + rewrite IH.
      destruct (decide (Forall has_answer examples)) as [Hall|Hnot];
        destruct (decide (Forall has_answer (example :: examples)))
          as [Hall'|Hnot'].
      * simpl. by rewrite <- app_assoc.
      * destruct Hnot'. constructor; [by eexists|done].
      * destruct Hnot. by inversion Hall'.
      * done.
    + destruct (decide (Forall has_answer (example :: examples)))
        as [Hall'|Hnot']; [|done].
      inversion Hall' as [|? ? [? Hs] ?]. congruence.
Qed.

End Loops.

(** ** Sampling lemmas *)

Section Sampling.

Context `{RandomSource}.

Lemma omap_lookup_Forall2 {A} (population : list A) (positions : list nat) :
  Forall (fun i => i < length population) positions ->
  Forall2 (fun i x => population !! i = Some x) positions
          (omap (fun i => population !! i) positions).
Proof.
  induction 1 as [|i positions Hi _ IH]; simpl; [constructor|].
  destruct (lookup_lt_is_Some_2 population i Hi) as [x Hx].
  rewrite Hx. by constructor.
Qed.

Lemma random_sample_in_range {A} (population : list A) (k : Z) (w : World) :
  (0 <= k <= Z.of_nat (length population))%Z ->
  exists positions g examples,
    random_sample population k w
      = (Ok examples, mkWorld g (requests w) (stdout w)) /\
    NoDup positions /\
    length positions = Z.to_nat k /\
    Forall2 (fun i x => population !! i = Some x) positions examples.
Proof.
  intros Hk. unfold random_sample. rewrite decide_True by done.
  assert (Hle : Z.to_nat k <= length population) by lia.
  pose proof (draw_length _ _ (random w) Hle) as Hlen.
  pose proof (draw_bound _ _ (random w) Hle) as Hbound.
  pose proof (draw_NoDup _ _ (random w) Hle) as Hnodup.
  destruct (draw _ _ _) as [positions g]. simpl in *.
  exists positions, g, (omap (fun i => population !! i) positions).
  split_and!; [done..|]. by apply omap_lookup_Forall2.
Qed.

Lemma random_sample_out_of_range {A} (population : list A) (k : Z) (w : World) :
  ~ (0 <= k <= Z.of_nat (length population))%Z ->
  random_sample population k w = (Raise ValueError, w).
Proof. intros Hk. unfold random_sample. by rewrite decide_False. Qed.

Lemma generate_shots_eq (dataset : Dataset) (k : Z) (w : World) :
  generate_shots dataset k w =
  match dataset !! "entire" with
  | None => (Raise KeyError, w)
  | Some subset =>
      match random_sample (get_instances subset) k w with
      | (Ok examples, w') =>
          if decide (Forall has_answer examples)
          then (Ok (examples ≫= exemplar_pair), w')
          else (Raise IndexError, w')
      | (Raise e, w') => (Raise e, w')
      end
  end.
Proof.
  unfold generate_shots, getitem. rewrite bind_eq. unfold lift at 1.
  destruct (dataset !! "entire") as [subset|]; [|done].
  rewrite bind_eq.
  destruct (random_sample _ _ _) as [[examples|e] w']; [|done].
  rewrite for_each_exemplars; [done|].
  intros example acc w0. rewrite bind_eq. unfold lift, index0.
  unfold exemplar_pair, first_answer, user_message, context_of.
  destruct (answers example) as [|first rest]; simpl; [done|].
  by rewrite <- app_assoc.
Qed.

Lemma exemplar_pairs_length (examples : list Instance) :
  length (examples ≫= exemplar_pair) = 2 * length examples.
Proof.
  induction examples as [|example examples IH]; [done|].
  rewrite bind_cons, length_app, IH. simpl. lia.
Qed.

Lemma exemplar_pairs_lookup (examples : list Instance) :
  forall (i : nat) (example : Instance),
  examples !! i = Some example ->
  (examples ≫= exemplar_pair) !! (2 * i) = Some (user_message example) /\
  (examples ≫= exemplar_pair) !! (2 * i + 1)
    = Some (mkMessage "assistant" (default "" (first_answer example))).
Proof.
  induction examples as [|e examples IH]; intros i example Hi; [done|].
  rewrite bind_cons. destruct i as [|i].
  - simpl in Hi. injection Hi as ->. done.
  - simpl in Hi. destruct (IH i example Hi) as [Hu Ha].
    replace (2 * S i) with (S (S (2 * i))) by lia.
    replace (S (S (2 * i)) + 1) with (S (S (2 * i + 1))) by lia.
    done.
Qed.

Lemma random_sample_world {A} (population : list A) (k : Z) (w w1 : World)
    (r : result (list A)) :
  random_sample population k w = (r, w1) ->
  requests w1 = requests w /\ stdout w1 = stdout w.
Proof.
  unfold random_sample. destruct (decide _); [|by intros [= <- <-]].
  destruct (draw _ _ _) as [positions g]. by intros [= <- <-].
Qed.

Lemma generate_shots_world (dataset : Dataset) (k : Z) (w w1 : World)
    (r : result (list Message)) :
  generate_shots dataset k w = (r, w1) ->
  requests w1 = requests w /\ stdout w1 = stdout w.
Proof.
  rewrite generate_shots_eq.
  destruct (dataset !! "entire") as [subset|]; [|by intros [= <- <-]].
  destruct (random_sample _ _ _) as [[examples|e] w0] eqn:Hs;
    apply random_sample_world in Hs;
    [destruct (decide _)|]; by intros [= <- <-].
Qed.

Lemma generate_shots_Ok (dataset : Dataset) (subset : Subset) (k : Z)
    (w w1 : World) (shots : list Message) :
  dataset !! "entire" = Some subset ->
  generate_shots dataset k w = (Ok shots, w1) ->
  exists examples,
    shots = examples ≫= exemplar_pair /\
    exemplars_of (get_instances subset) k examples.
Proof.
  intros Hds. rewrite generate_shots_eq, Hds.
  destruct (decide (0 <= k <= Z.of_nat (length (get_instances subset)))%Z)
    as [Hk|Hk].
  - destruct (random_sample_in_range (get_instances subset) k w Hk)
      as (positions & g & examples & Hs & _ & Hlen & Hex).
    rewrite Hs. destruct (decide _) as [Hall|]; [|done].
    intros [= <- <-]. exists examples. split; [done|].
    split_and!; [|done|].
    + apply Forall2_length in Hex. lia.
    + apply Forall_forall. intros example Hin.
      apply list_elem_of_lookup in Hin as [j Hj].
      destruct (Forall2_lookup_r _ _ _ _ _ Hex Hj) as (i & _ & Hi).
      apply list_elem_of_lookup. eauto.
  - by rewrite random_sample_out_of_range.
Qed.

Lemma generate_shots_in_range (dataset : Dataset) (subset : Subset) (k : Z)
    (w : World) :
  dataset !! "entire" = Some subset ->
  Forall has_answer (get_instances subset) ->
  (0 <= k <= Z.of_nat (length (get_instances subset)))%Z ->
  exists positions examples w',
    generate_shots dataset k w = (Ok (examples ≫= exemplar_pair), w') /\
    length examples = Z.to_nat k /\
    NoDup positions /\
    Forall2 (fun i example => get_instances subset !! i = Some example)
            positions examples.
Proof.
  intros Hds Hall Hk.
  destruct (random_sample_in_range (get_instances subset) k w Hk)
    as (positions & g & examples & Hs & Hnodup & Hlen & Hex).
  exists positions, examples. eexists.
  rewrite generate_shots_eq, Hds, Hs.
  assert (Hall' : Forall has_answer examples).
  { apply Forall_forall. intros example Hin.
    apply list_elem_of_lookup in Hin as [j Hj].
    destruct (Forall2_lookup_r _ _ _ _ _ Hex Hj) as (i & _ & Hi).
    eapply Forall_lookup_1 in Hall; eauto. }
  rewrite decide_True by done.
  apply Forall2_length in Hex as Hlen'.
  split_and!; [done|lia|done|done].
Qed.

(** C4: for every pool and every [k] above the pool size, [generate_shots]
    raises the sampling error ([ValueError] of [random.sample]) and returns
    no message list; the world is left as it was. *)
Theorem generate_shots_sampling_bound
    (dataset : Dataset) (subset : Subset) (k : Z) (w : World) :
  dataset !! "entire" = Some subset ->
  (k > Z.of_nat (length (get_instances subset)))%Z ->
  generate_shots dataset k w = (Raise ValueError, w).
Proof.
  intros Hds Hk. rewrite generate_shots_eq, Hds.
  rewrite random_sample_out_of_range by lia. done.
Qed.

(** C5: for every pool whose instances each carry a candidate answer and
    every [0 <= k <= |pool|], [generate_shots] returns exactly [2k] messages:
    the user/assistant pairs of [k] instances taken at pairwise distinct
    positions of the pool, in draw order.  With [k = 0] the result is the
    empty list, for any pool. *)
Theorem generate_shots_count
    (dataset : Dataset) (subset : Subset) (k : Z) (w : World) :
  dataset !! "entire" = Some subset ->
  (exists w', generate_shots dataset 0 w = (Ok [], w')) /\
  (Forall has_answer (get_instances subset) ->
   (0 <= k <= Z.of_nat (length (get_instances subset)))%Z ->
   exists positions examples w',
     generate_shots dataset k w = (Ok (examples ≫= exemplar_pair), w') /\
     Z.of_nat (length (examples ≫= exemplar_pair)) = (2 * k)%Z /\
     Z.of_nat (length examples) = k /\
     NoDup positions /\
     Forall2 (fun i example => get_instances subset !! i = Some example)
             positions examples).
Proof.
  intros Hds. split.
  - destruct (random_sample_in_range (get_instances subset) 0 w ltac:(lia))
      as (positions & g & examples & Hs & _ & Hlen & Hex).
    apply Forall2_length in Hex. rewrite Hlen in Hex.
    destruct examples; [|done].
    eexists. rewrite generate_shots_eq, Hds, Hs.
    rewrite decide_True by constructor. done.
  - intros Hall Hk.
    destruct (generate_shots_in_range _ _ _ w Hds Hall Hk)
      as (positions & examples & w' & Hrun & Hlen & Hnodup & Hex).
    exists positions, examples, w'.
    rewrite exemplar_pairs_length.
    split_and!; [done|lia|lia|done|done].
Qed.

(** C6: whenever [generate_shots] returns, its messages are the pairs of
    the sampled instances in draw order: for the [i]-th sampled instance a
    user message whose content is [generate_prompt] of its question and of
    its hints joined by newlines in list order (the empty string for no
    hints), followed by an assistant message whose content is its first
    candidate answer.  The sampled instances are what [random.sample]
    returned for the pool. *)
Theorem generate_shots_rendering
    (dataset : Dataset) (k : Z) (w w' : World) (msgs : list Message) :
  generate_shots dataset k w = (Ok msgs, w') ->
  exists subset examples,
    dataset !! "entire" = Some subset /\
    random_sample (get_instances subset) k w = (Ok examples, w') /\
    length msgs = 2 * length examples /\
    (forall (i : nat) (example : Instance),
       examples !! i = Some example ->
       exists first,
         head (answers example) = Some first /\
         msgs !! (2 * i)
           = Some (mkMessage "user"
                     (generate_prompt (question (instance_question example))
                                      (join nl (hint <$> hints example)))) /\
         msgs !! (2 * i + 1) = Some (mkMessage "assistant" (answer first))) /\
    join nl [] = "" /\
    (forall h, join nl [h] = h) /\
    (forall h h' rest,
       join nl (h :: h' :: rest) = h +:+ nl +:+ join nl (h' :: rest)).
Proof.
  rewrite generate_shots_eq.
  destruct (dataset !! "entire") as [subset|]; [|done].
  destruct (random_sample _ _ _) as [[examples|e] w0] eqn:Hs; [|done].
  destruct (decide (Forall has_answer examples)) as [Hall|]; [|done].
  intros [= <- <-]. exists subset, examples.
  split; [done|]. split; [done|].
  split; [apply exemplar_pairs_length|].
  split; [|done].
  intros i example Hi.
  destruct (Forall_lookup_1 _ _ _ _ Hall Hi) as [first Hfirst].
  destruct (exemplar_pairs_lookup examples i example Hi) as [Hu Ha].
  exists first. split; [done|]. split; [exact Hu|].
  rewrite Ha. unfold first_answer. by rewrite Hfirst.
Qed.

End Sampling.

(** ** The evaluation loop *)

Section Evaluation.

Context `{RandomSource}.
Variable endpoint : Endpoint.

(** One pass of the loop, outcome by outcome. *)
Lemma rag_body_eq (dataset : Dataset) (k : Z) (instance : Instance)
    (predicted_answers ground_truths : list string) (w : World) :
  rag_body endpoint dataset k instance (predicted_answers, ground_truths) w =
  match generate_shots dataset k w with
  | (Raise e, w1) => (Raise e, w1)
  | (Ok shots, w1) =>
      match head (answers instance) with
      | None => (Raise IndexError, w1)
      | Some first =>
          let request :=
            mkRequest model_name
              ([mkMessage "system" system_prompt] ++ shots
               ++ [user_message instance]) in
          let w2 :=
            mkWorld (random w1) (requests w1 ++ [request]) (stdout w1) in
          match endpoint (requests w1) request with
          | Raise e => (Raise e, w2)
          | Ok reply =>
              match reply_text reply with
              | Raise e => (Raise e, w2)
              | Ok text =>
                  (Ok (predicted_answers ++ [strip text],
                       ground_truths ++ [answer first]), w2)
              end
          end
      end
  end.
Proof.
  unfold rag_body. rewrite bind_eq.
  destruct (generate_shots dataset k w) as [[shots|e] w1]; [|done].
  rewrite bind_eq. unfold lift at 1, index0 at 1.
  destruct (answers instance) as [|first rest]; [done|]. simpl head. cbv zeta.
  rewrite bind_eq. unfold create at 1.
  rewrite <- app_assoc.
  change (mkMessage "user"
            (generate_prompt (question (instance_question instance))
               (join nl (hint <$> hints instance))))
    with (user_message instance).
  destruct (endpoint _ _) as [reply|e]; [|done].
  rewrite bind_eq. unfold lift at 1, index0, reply_text.
  destruct (Completion.choices reply) as [|choice others]; [done|].
  rewrite bind_eq. unfold lift.
  destruct (Completion.content (Completion.message choice)); done.
Qed.

(** What one pass does to the world and to the loop's lists. *)
Lemma rag_body_step (dataset : Dataset) (subset : Subset) (k : Z)
    (instance : Instance) (predicted_answers ground_truths : list string)
    (w w' : World) (r : result (list string * list string)) :
  dataset !! "entire" = Some subset ->
  rag_body endpoint dataset k instance (predicted_answers, ground_truths) w
    = (r, w') ->
  stdout w' = stdout w /\
  ((requests w' = requests w /\ exists e, r = Raise e) \/
   (exists examples,
      requests w' = requests w ++ [request_for instance examples] /\
      exemplars_of (get_instances subset) k examples /\
      forall out, r = Ok out ->
        exists first text,
          head (answers instance) = Some first /\
          out = (predicted_answers ++ [strip text],
                 ground_truths ++ [answer first]))).
Proof.
  intros Hds. rewrite rag_body_eq.
  destruct (generate_shots dataset k w) as [[shots|e] w1] eqn:Hshots;
    pose proof (generate_shots_world _ _ _ _ _ Hshots) as [Hreq Hout].
  2:{ intros [= <- <-]. split; [done|]. left. eauto. }
  destruct (generate_shots_Ok _ _ _ _ _ _ Hds Hshots) as (examples & -> & Hex).
  destruct (head (answers instance)) as [first|].
  2:{ intros [= <- <-]. split; [done|]. left. eauto. }
  cbv zeta.
  fold (request_for instance examples).
  destruct (endpoint _ _) as [reply|e].
  2:{ intros [= <- <-]. split; [done|]. right. exists examples.
      simpl. rewrite Hreq. split_and!; [done..|]. intros out [=]. }
  destruct (reply_text reply) as [text|e]; intros [= <- <-];
    (split; [done|]); right; exists examples; simpl; rewrite Hreq;
    (split_and!; [done..|]).
  - intros out [= <-]. eauto.
  - intros out [=].
Qed.

(** The requests a run of the loop adds pair up with the instances it
    went through, in order; a run that returns went through all of them
    and extended the two lists by one entry per instance. *)
Lemma rag_loop_spec (dataset : Dataset) (subset : Subset) (k : Z) :
  dataset !! "entire" = Some subset ->
  forall (instances : list Instance) (acc : list string * list string)
         (w w' : World) (r : result (list string * list string)),
  for_each instances acc (rag_body endpoint dataset k) w = (r, w') ->
  stdout w' = stdout w /\
  exists sent visited,
    requests w' = requests w ++ sent /\
    visited `prefix_of` instances /\
    Forall2 (fun instance request =>
               exists examples,
                 request = request_for instance examples /\
                 exemplars_of (get_instances subset) k examples)
            visited sent /\
    forall out, r = Ok out ->
      visited = instances /\
      exists preds firsts,
        out = (acc.1 ++ preds, acc.2 ++ (answer <$> firsts)) /\
        length preds = length instances /\
        Forall2 (fun instance first => head (answers instance) = Some first)
                instances firsts.
Proof.
  intros Hds instances.
  induction instances as [|instance instances IH]; intros acc w w' r.
  - intros [= <- <-]. split; [done|]. exists [], [].
    rewrite app_nil_r. split_and!; [done|done|constructor|].
    intros out [= <-]. split; [done|]. exists [], [].
    simpl. rewrite !app_nil_r. by destruct acc.
  - change (for_each (instance :: instances) acc (rag_body endpoint dataset k) w)
      with ((rag_body endpoint dataset k instance acc
               ≫= fun acc' => for_each instances acc'
                                (rag_body endpoint dataset k)) w).
    rewrite bind_eq. destruct acc as [ps ts].
    destruct (rag_body _ _ _ _ _ _) as [r1 w1] eqn:Hstep.
    destruct (rag_body_step _ _ _ _ _ _ _ _ _ Hds Hstep)
      as [Hout [[Hreq [e ->]]|(examples & Hreq & Hex & Hok)]].
    + intros [= <- <-]. split; [done|]. exists [], [].
      rewrite app_nil_r. split_and!; [done|apply prefix_nil|constructor|].
      intros out [=].
    + destruct r1 as [acc1|e].
      * destruct (Hok _ eq_refl) as (first & text & Hfirst & ->).
        intros Hrest. apply IH in Hrest
          as (Hout' & sent & visited & Hreq' & Hpre & Hall & Hok').
        split; [congruence|].
        exists (request_for instance examples :: sent), (instance :: visited).
        split_and!.
        -- rewrite Hreq', Hreq. by rewrite <- app_assoc.
        -- by apply prefix_cons.
        -- constructor; [eauto|done].
        -- intros out ->. destruct (Hok' _ eq_refl)
             as (-> & preds & firsts & -> & Hlen & Hfirsts).
           split; [done|].
           exists (strip text :: preds), (first :: firsts). simpl.
           rewrite <- !app_assoc. split_and!; [done|lia|by constructor].
      * intros [= <- <-]. split; [done|].
        exists [request_for instance examples], [instance].
        split_and!; [done|apply prefix_cons, prefix_nil| |intros out [=]].
        constructor; [eauto|constructor].
Qed.

Lemma ordered_for_facts (target : Instance) (examples : list Instance)
    (ms : list Message) :
  ordered_for target examples ms ->
  head ms = Some (mkMessage "system" system_prompt) /\
  last ms = Some (user_message target) /\
  length ms = 2 * length examples + 2 /\
  forall (j : nat) (example : Instance),
    examples !! j = Some example ->
    ms !! (1 + 2 * j) = Some (user_message example) /\
    ms !! (2 + 2 * j)
      = Some (mkMessage "assistant" (default "" (first_answer example))).
Proof.
  unfold ordered_for. intros ->. split_and!.
  - done.
  - rewrite app_assoc. apply last_snoc.
  - rewrite !length_app, exemplar_pairs_length. simpl. lia.
  - intros j example Hj.
    destruct (exemplar_pairs_lookup examples j example Hj) as [Hu Ha].
    simpl. rewrite !lookup_app_l.
    + split; [done|]. by replace (S (j + (j + 0))) with (2 * j + 1) by lia.
    + apply lookup_lt_Some in Ha. lia.
    + apply lookup_lt_Some in Hu. simpl in Hu. lia.
Qed.

(** The loop returns when nothing in it can raise: the pool holds the
    five exemplars a pass asks for, every instance has a candidate answer,
    and the endpoint answers each request with a first choice that has
    text. *)
Lemma rag_returns (dataset : Dataset) (subset : Subset) (w : World) :
  dataset !! "entire" = Some subset ->
  5 <= length (get_instances subset) ->
  Forall has_answer (get_instances subset) ->
  (forall history request,
     exists reply text,
       endpoint history request = Ok reply /\ reply_text reply = Ok text) ->
  exists out w', rag endpoint dataset w = (Ok out, w').
Proof.
  intros Hds Hlen Hall Hep. unfold rag, rag_with. rewrite bind_eq.
  unfold lift, getitem. rewrite Hds.
  assert (Hloop : forall instances acc w0,
            Forall has_answer instances ->
            exists out w',
              for_each instances acc (rag_body endpoint dataset 5) w0
                = (Ok out, w')).
  2:{ by apply Hloop. }
  induction instances as [|instance instances IH]; intros [ps ts] w0 Hins.
  - by eexists _, _.
  - change (for_each (instance :: instances) (ps, ts)
              (rag_body endpoint dataset 5) w0)
      with ((rag_body endpoint dataset 5 instance (ps, ts)
               ≫= fun acc' => for_each instances acc'
                                (rag_body endpoint dataset 5)) w0).
    rewrite bind_eq, rag_body_eq.
    destruct (generate_shots_in_range dataset subset 5 w0 Hds Hall ltac:(lia))
      as (positions & examples & w1 & -> & _).
    inversion Hins as [|? ? [first Hfirst] Hrest]; subst.
    rewrite Hfirst. cbv zeta.
    match goal with |- context [endpoint ?h ?r] =>
      destruct (Hep h r) as (reply & text & -> & ->) end.
    apply IH, Hrest.
Qed.

(** C1: when [rag] returns for a pool of [N] instances, it returns [N]
    prediction records (two lists of length [N], read side by side), and
    the ground truth of record [i] is the first candidate answer of pool
    instance [i]. *)
Theorem rag_order_correspondence
    (dataset : Dataset) (subset : Subset) (w w' : World)
    (predicted_answers ground_truths : list string) :
  dataset !! "entire" = Some subset ->
  rag endpoint dataset w = (Ok (predicted_answers, ground_truths), w') ->
  length (records (predicted_answers, ground_truths))
    = length (get_instances subset) /\
  length predicted_answers = length (get_instances subset) /\
  length ground_truths = length (get_instances subset) /\
  forall (i : nat) (instance : Instance),
    get_instances subset !! i = Some instance ->
    exists first predicted,
      head (answers instance) = Some first /\
      ground_truths !! i = Some (answer first) /\
      records (predicted_answers, ground_truths) !! i
        = Some (predicted, answer first).
Proof.
  intros Hds. unfold rag, rag_with. rewrite bind_eq.
  unfold lift, getitem. rewrite Hds. intros Hrun.
  apply (rag_loop_spec _ _ _ Hds) in Hrun
    as (_ & sent & visited & _ & _ & _ & Hok).
  destruct (Hok _ eq_refl) as (_ & preds & firsts & [= -> ->] & Hlen & Hfirsts).
  simpl in *. apply Forall2_length in Hfirsts as Hlen'.
  unfold records. simpl.
  rewrite length_zip, length_fmap.
  split_and!; [lia|done|lia|].
  intros i instance Hi.
  destruct (Forall2_lookup_l _ _ _ _ _ Hfirsts Hi) as (first & Hf & Hhead).
  destruct (lookup_lt_is_Some_2 preds i) as [predicted Hp].
  { apply lookup_lt_Some in Hi. lia. }
  exists first, predicted. split; [done|].
  assert (Ht : (answer <$> firsts) !! i = Some (answer first)).
  { by rewrite list_lookup_fmap, Hf. }
  split; [done|].
  apply lookup_zip_with_Some. eauto.
Qed.

(** C2: every message sequence [rag] sends to the completion endpoint is
    ordered: the [i]-th request of a run is for pool instance [i]; its first
    message is the system message, its last is the user message built from
    that instance's question and hints, and in between stand the pairs of
    five exemplars of the pool, each a user message followed by its
    assistant message. *)
Theorem rag_message_ordering
    (dataset : Dataset) (subset : Subset) (w : World) :
  dataset !! "entire" = Some subset ->
  exists sent,
    requests (rag endpoint dataset w).2 = requests w ++ sent /\
    forall (i : nat) (request : Request),
      sent !! i = Some request ->
      exists target examples,
        get_instances subset !! i = Some target /\
        exemplars_of (get_instances subset) 5 examples /\
        ordered_for target examples (messages request) /\
        head (messages request) = Some (mkMessage "system" system_prompt) /\
        last (messages request) = Some (user_message target) /\
        length (messages request) = 2 * length examples + 2 /\
        forall (j : nat) (example : Instance),
          examples !! j = Some example ->
          messages request !! (1 + 2 * j) = Some (user_message example) /\
          messages request !! (2 + 2 * j)
            = Some (mkMessage "assistant"
                      (default "" (first_answer example))).
Proof.
  intros Hds. unfold rag, rag_with. rewrite bind_eq.
  unfold lift, getitem. rewrite Hds.
  destruct (for_each _ _ _ _) as [r w'] eqn:Hrun.
  apply (rag_loop_spec _ _ _ Hds) in Hrun
    as (_ & sent & visited & Hreq & Hpre & Hall & _).
  exists sent. split; [done|].
  intros i request Hi.
  destruct (Forall2_lookup_r _ _ _ _ _ Hall Hi)
    as (target & Ht & examples & -> & Hex).
  exists target, examples.
  split; [by eapply prefix_lookup_Some|].
  split; [done|].
  assert (Hord : ordered_for target examples
                   (messages (request_for target examples))) by done.
  split; [done|]. by apply ordered_for_facts.
Qed.

(** C7: when the pass for one instance raises, [rag] raises the same
    exception and stops in the world that pass left: the instances after it
    are not visited, and the answers collected for the instances before it
    are not returned. *)
Theorem rag_aborts_on_failure
    (dataset : Dataset) (subset : Subset)
    (before after : list Instance) (instance : Instance)
    (acc : list string * list string) (e : exn) (w w1 w2 : World) :
  dataset !! "entire" = Some subset ->
  get_instances subset = before ++ instance :: after ->
  for_each before ([], []) (rag_body endpoint dataset 5) w = (Ok acc, w1) ->
  rag_body endpoint dataset 5 instance acc w1 = (Raise e, w2) ->
  rag endpoint dataset w = (Raise e, w2).
Proof.
  intros Hds Hpool Hbefore Hfail. unfold rag, rag_with. rewrite bind_eq.
  unfold lift, getitem. rewrite Hds, Hpool.
  rewrite for_each_app, Hbefore.
  change (for_each (instance :: after) acc (rag_body endpoint dataset 5) w1)
    with ((rag_body endpoint dataset 5 instance acc
             ≫= fun acc' => for_each after acc'
                              (rag_body endpoint dataset 5)) w1).
  by rewrite bind_eq, Hfail.
Qed.

Lemma two_instance_lookup :
  two_instance_dataset !! "entire" = Some (mkSubset [instance_A; instance_B]).
Proof. apply lookup_singleton_eq. Qed.

(** With fewer than five instances the first pass cannot draw its
    exemplars. *)
Lemma rag_small_pool (dataset : Dataset) (subset : Subset) (w : World) :
  dataset !! "entire" = Some subset ->
  0 < length (get_instances subset) < 5 ->
  rag endpoint dataset w = (Raise ValueError, w).
Proof.
  intros Hds Hlen. unfold rag, rag_with. rewrite bind_eq.
  unfold lift, getitem. rewrite Hds.
  destruct (get_instances subset) as [|instance instances] eqn:Hpool;
    [simpl in Hlen; lia|].
  change (for_each (instance :: instances) ([], [])
            (rag_body endpoint dataset 5) w)
    with ((rag_body endpoint dataset 5 instance ([], [])
             ≫= fun acc' => for_each instances acc'
                              (rag_body endpoint dataset 5)) w).
  rewrite bind_eq, rag_body_eq, generate_shots_eq, Hds.
  rewrite random_sample_out_of_range; [done|].
  rewrite Hpool. lia.
Qed.

Lemma zero_exemplars (pool : list Instance) (visited : list Instance)
    (sent : list Request) :
  Forall2 (fun instance request =>
             exists examples,
               request = request_for instance examples /\
               exemplars_of pool 0 examples)
          visited sent ->
  sent = (fun instance => request_for instance []) <$> visited.
Proof.
  induction 1 as [|instance request visited sent Hx _ IH]; [done|].
  destruct Hx as (examples & -> & Hlen & _).
  destruct examples; [|done]. simpl. by rewrite IH.
Qed.

(** C3 (as the code has it): [rag] takes no exemplar count and always asks
    for five, so on the two-instance pool its first pass raises the
    sampling error before any request is sent.  Run with zero exemplars,
    the same loop sends at most the two requests for A and B, in that
    order, each made of the system message and the instance's user message;
    when it returns it has sent both and returns two predictions paired
    with the ground truths Paris and 1945, whatever the endpoint
    answered. *)
Theorem two_instance_pool_run (w : World) :
  rag endpoint two_instance_dataset w = (Raise ValueError, w) /\
  (exists sent,
     requests (rag_with endpoint 0 two_instance_dataset w).2
       = requests w ++ sent /\
     sent `prefix_of` [request_for instance_A []; request_for instance_B []] /\
     forall out,
       (rag_with endpoint 0 two_instance_dataset w).1 = Ok out ->
       sent = [request_for instance_A []; request_for instance_B []] /\
       exists predA predB, out = ([predA; predB], ["Paris"; "1945"])) /\
  messages (request_for instance_A [])
    = [mkMessage "system" system_prompt; user_message instance_A] /\
  messages (request_for instance_B [])
    = [mkMessage "system" system_prompt; user_message instance_B].
Proof.
  split; [|split; [|done]].
  - apply (rag_small_pool _ _ _ two_instance_lookup). simpl. lia.
  - unfold rag_with. rewrite bind_eq.
    unfold lift, getitem. rewrite two_instance_lookup.
    destruct (for_each _ _ _ _) as [r w'] eqn:Hrun.
    apply (rag_loop_spec _ _ _ two_instance_lookup) in Hrun
      as (_ & sent & visited & Hreq & Hpre & Hall & Hok).
    apply zero_exemplars in Hall as ->.
    eexists. split; [done|]. simpl in *. split.
    + destruct Hpre as [rest Hrest].
      change [request_for instance_A []; request_for instance_B []]
        with ((fun instance => request_for instance [])
                <$> [instance_A; instance_B]).
      rewrite Hrest, fmap_app. by eexists.
    + intros out ->.
      destruct (Hok _ eq_refl) as (-> & preds & firsts & -> & Hlen & Hfirsts).
      split; [done|].
      destruct preds as [|predA [|predB [|]]]; try done.
      apply Forall2_cons_inv_l in Hfirsts as (fA & firsts' & HA & Hfirsts & ->).
      apply Forall2_cons_inv_l in Hfirsts as (fB & firsts'' & HB & Hfirsts & ->).
      apply Forall2_nil_inv_l in Hfirsts as ->.
      simpl in HA, HB. injection HA as <-. injection HB as <-.
      by exists predA, predB.
Qed.

End Evaluation.

(** ** The prompt *)

(** C8: [generate_prompt] is a function of its two strings alone, defined
    for all of them (the empty ones included): the fixed template with the
    context block before the question block, closed by the cue [Answer:],
    after which only a line break and the indentation follow. *)
Theorem generate_prompt_template (question context : string) :
  generate_prompt question context
    = ("Based on the context, answer the following question:" +:+ nl)
      +:+ ("    Context:" +:+ nl +:+ "    " +:+ context +:+ nl +:+ nl)
      +:+ ("    Question:" +:+ nl +:+ "    " +:+ question +:+ nl +:+ nl)
      +:+ ("    Answer:" +:+ nl +:+ "    ") /\
  rstrip (generate_prompt question context)
    = ("Based on the context, answer the following question:" +:+ nl)
      +:+ ("    Context:" +:+ nl +:+ "    " +:+ context +:+ nl +:+ nl)
      +:+ ("    Question:" +:+ nl +:+ "    " +:+ question +:+ nl +:+ nl)
      +:+ "    Answer:" /\
  generate_prompt "" ""
    = "Based on the context, answer the following question:" +:+ nl
      +:+ "    Context:" +:+ nl +:+ "    " +:+ nl +:+ nl
      +:+ "    Question:" +:+ nl +:+ "    " +:+ nl +:+ nl
      +:+ "    Answer:" +:+ nl +:+ "    ".
Proof.
  assert (Heq : generate_prompt question context
    = ("Based on the context, answer the following question:" +:+ nl)
      +:+ ("    Context:" +:+ nl +:+ "    " +:+ context +:+ nl +:+ nl)
      +:+ ("    Question:" +:+ nl +:+ "    " +:+ question +:+ nl +:+ nl)
      +:+ ("    Answer:" +:+ nl +:+ "    ")).
  { unfold generate_prompt. by rewrite !append_assoc. }
  split; [exact Heq|]. split; [|reflexivity].
  rewrite Heq.
  set (cue := "    Answer:" +:+ nl +:+ "    ").
  rewrite <- !append_assoc.
  rewrite rstrip_append; [done|]. by vm_compute.
Qed.

(** ** The result table *)

Section Reporting.

Context `{RandomSource}.

Lemma add_rows_loop (pairs : list (string * string)) :
  forall (table : PrettyTable) (w : World),
  length (field_names table) = 2 ->
  for_each pairs table
    (fun '(predicted, ground) table =>
       lift (add_row table [predicted; ground])) w
  = (Ok (mkTable (field_names table)
                 (rows table ++ ((fun r => [r.1; r.2]) <$> pairs))), w).
Proof.
  induction pairs as [|[predicted ground] pairs IH]; intros table w Hnames.
  - simpl. rewrite app_nil_r. by destruct table.
  - change (for_each ((predicted, ground) :: pairs) table ?body w)
      with ((body (predicted, ground) table
               ≫= fun acc' => for_each pairs acc' body) w).
    rewrite bind_eq. unfold lift at 1, add_row at 1.
    rewrite decide_True by (by rewrite Hnames).
    rewrite IH by done. simpl. by rewrite <- app_assoc.
Qed.

Lemma print_result_table_eq (predicted_answers correct_answers : list string)
    (w : World) :
  print_result_table predicted_answers correct_answers w
  = (Ok tt,
     mkWorld (random w) (requests w)
       (stdout w ++
        [EmptyLine;
         Table (mkTable ["Predicted"; "Ground Truth"]
                  ((fun r => [r.1; r.2])
                     <$> zip predicted_answers correct_answers))])).
Proof.
  unfold print_result_table. rewrite bind_eq.
  unfold lift at 1, PrettyTable_new.
  rewrite decide_True.
  2:{ apply NoDup_cons. split; [|apply NoDup_singleton].
      intros Hin. apply list_elem_of_singleton in Hin. discriminate. }
  rewrite bind_eq, add_rows_loop by done.
  rewrite bind_eq. unfold print. simpl. by rewrite <- app_assoc.
Qed.

Lemma zip_take_min {A B} (xs : list A) : forall (ys : list B),
  zip (take (length xs `min` length ys) xs)
      (take (length xs `min` length ys) ys) = zip xs ys.
Proof.
  induction xs as [|x xs IH]; intros [|y ys]; simpl; try done.
  by rewrite IH.
Qed.

(** C9: for every list of prediction records, [print_result_table] on
    their predicted and ground-truth fields prints an empty line and a
    table with the field names Predicted and Ground Truth and one row per
    record, in list order, the two cells of a row being the record's two
    fields as they are. *)
Theorem print_result_table_fidelity (recs : list (string * string))
    (w : World) :
  print_result_table recs.*1 recs.*2 w
  = (Ok tt,
     mkWorld (random w) (requests w)
       (stdout w ++
        [EmptyLine;
         Table (mkTable ["Predicted"; "Ground Truth"]
                  ((fun r => [r.1; r.2]) <$> recs))])) /\
  length ((fun r : string * string => [r.1; r.2]) <$> recs) = length recs.
Proof.
  rewrite print_result_table_eq, zip_fst_snd.
  split; [done|]. by rewrite length_fmap.
Qed.

(** C10: [print_result_table] takes the predicted answers and the ground
    truths as two lists; when their lengths differ it raises nothing and
    prints the rows of the first [min] of the two lengths, the rest of the
    longer list being left out. *)
Theorem print_result_table_unequal_lengths
    (predicted_answers correct_answers : list string) (w : World) :
  let m := length predicted_answers `min` length correct_answers in
  let shown :=
    (fun r : string * string => [r.1; r.2])
      <$> zip (take m predicted_answers) (take m correct_answers) in
  print_result_table predicted_answers correct_answers w
  = (Ok tt,
     mkWorld (random w) (requests w)
       (stdout w ++
        [EmptyLine; Table (mkTable ["Predicted"; "Ground Truth"] shown)])) /\
  length shown = m.
Proof.
  intros m shown. unfold shown, m.
  rewrite print_result_table_eq, zip_take_min.
  split; [done|]. rewrite length_fmap, length_zip. done.
Qed.

End Reporting.

(** ** The properties at concrete inputs *)

Lemma five_instance_lookup :
  five_instance_dataset !! "entire" = Some (mkSubset five_instances).
Proof. apply lookup_singleton_eq. Qed.

(** On the five-instance pool with the steady endpoint [rag] returns, and
    its five records carry the five first answers. *)
Lemma rag_order_correspondence_witness :
  exists predicted_answers ground_truths w',
    rag steady_endpoint five_instance_dataset world0
      = (Ok (predicted_answers, ground_truths), w') /\
    ground_truths = ["Paris"; "1945"; "Jupiter"; "Shakespeare"; "Au"] /\
    length (records (predicted_answers, ground_truths)) = 5 /\
    length predicted_answers = 5 /\
    length ground_truths = 5 /\
    forall (i : nat) (instance : Instance),
      five_instances !! i = Some instance ->
      exists first predicted,
        head (answers instance) = Some first /\
        ground_truths !! i = Some (answer first) /\
        records (predicted_answers, ground_truths) !! i
          = Some (predicted, answer first).
Proof.
  eexists _, _, _. split; [vm_compute; reflexivity|].
  split; [reflexivity|].
  eapply (rag_order_correspondence steady_endpoint five_instance_dataset
            (mkSubset five_instances) world0).
  - exact five_instance_lookup.
  - vm_compute. reflexivity.
Defined.

(** Every request of that run is ordered. *)
Lemma rag_message_ordering_witness :
  five_instance_dataset !! "entire" = Some (mkSubset five_instances) /\
  exists sent,
    requests (rag steady_endpoint five_instance_dataset world0).2
      = requests world0 ++ sent /\
    forall (i : nat) (request : Request),
      sent !! i = Some request ->
      exists target examples,
        five_instances !! i = Some target /\
        exemplars_of five_instances 5 examples /\
        ordered_for target examples (messages request) /\
        head (messages request) = Some (mkMessage "system" system_prompt) /\
        last (messages request) = Some (user_message target) /\
        length (messages request) = 2 * length examples + 2 /\
        forall (j : nat) (example : Instance),
          examples !! j = Some example ->
          messages request !! (1 + 2 * j) = Some (user_message example) /\
          messages request !! (2 + 2 * j)
            = Some (mkMessage "assistant"
                      (default "" (first_answer example))).
Proof.
  split; [reflexivity|].
  apply (rag_message_ordering steady_endpoint five_instance_dataset
           (mkSubset five_instances) world0).
  reflexivity.
Defined.

(** Five exemplars cannot be drawn from the two-instance pool. *)
Lemma generate_shots_sampling_bound_witness :
  (5 > Z.of_nat (length [instance_A; instance_B]))%Z /\
  generate_shots two_instance_dataset 5 world0 = (Raise ValueError, world0).
Proof.
  split; [reflexivity|].
  apply (generate_shots_sampling_bound two_instance_dataset
           (mkSubset [instance_A; instance_B]) 5 world0).
  - reflexivity.
  - reflexivity.
Defined.

(** Three exemplars from the pool of five. *)
Lemma generate_shots_count_witness :
  Forall has_answer five_instances /\
  (exists w', generate_shots five_instance_dataset 0 world0 = (Ok [], w')) /\
  exists positions examples w',
    generate_shots five_instance_dataset 3 world0
      = (Ok (examples ≫= exemplar_pair), w') /\
    Z.of_nat (length (examples ≫= exemplar_pair)) = (2 * 3)%Z /\
    Z.of_nat (length examples) = 3%Z /\
    NoDup positions /\
    Forall2 (fun i example => five_instances !! i = Some example)
            positions examples.
Proof.
  assert (Hall : Forall has_answer five_instances).
  { repeat constructor; by eexists. }
  split; [exact Hall|].
  destruct (generate_shots_count five_instance_dataset
              (mkSubset five_instances) 3 world0 eq_refl) as [Hzero Hk].
  split; [exact Hzero|].
  apply Hk; [exact Hall|]. simpl. lia.
Defined.

(** The two exemplars drawn from the two-instance pool, rendered. *)
Lemma generate_shots_rendering_witness :
  exists msgs w',
    generate_shots two_instance_dataset 2 world0 = (Ok msgs, w') /\
    length msgs = 4 /\
    exists subset examples,
      two_instance_dataset !! "entire" = Some subset /\
      random_sample (get_instances subset) 2 world0 = (Ok examples, w') /\
      length msgs = 2 * length examples /\
      (forall (i : nat) (example : Instance),
         examples !! i = Some example ->
         exists first,
           head (answers example) = Some first /\
           msgs !! (2 * i)
             = Some (mkMessage "user"
                       (generate_prompt (question (instance_question example))
                                        (join nl (hint <$> hints example)))) /\
           msgs !! (2 * i + 1) = Some (mkMessage "assistant" (answer first))) /\
      join nl [] = "" /\
      (forall h, join nl [h] = h) /\
      (forall h h' rest,
         join nl (h :: h' :: rest) = h +:+ nl +:+ join nl (h' :: rest)).
Proof.
  eexists _, _. split; [vm_compute; reflexivity|].
  split; [reflexivity|].
  eapply (generate_shots_rendering two_instance_dataset 2 world0).
  vm_compute. reflexivity.
Defined.

(** With the endpoint that answers once, the pass for the second of five
    instances raises and [rag] stops there, two requests sent. *)
Lemma rag_aborts_on_failure_witness :
  exists acc w1 w2,
    for_each [instance_A] ([], [])
      (rag_body one_time_endpoint five_instance_dataset 5) world0
      = (Ok acc, w1) /\
    rag_body one_time_endpoint five_instance_dataset 5 instance_B acc w1
      = (Raise (APIError "rate limit"), w2) /\
    length (requests w2) = 2 /\
    rag one_time_endpoint five_instance_dataset world0
      = (Raise (APIError "rate limit"), w2).
Proof.
  eexists _, _, _.
  split; [vm_compute; reflexivity|].
  split; [vm_compute; reflexivity|].
  split; [reflexivity|].
  eapply (rag_aborts_on_failure one_time_endpoint five_instance_dataset
            (mkSubset five_instances) [instance_A]
            [instance_C; instance_D; instance_E] instance_B).
  - exact five_instance_lookup.
  - reflexivity.
  - vm_compute. reflexivity.
  - vm_compute. reflexivity.
Defined.

(** On the two-instance pool with the steady endpoint: [rag] raises, the
    zero-exemplar loop returns. *)
Lemma two_instance_pool_run_witness :
  (rag_with steady_endpoint 0 two_instance_dataset world0).1
    = Ok (["Paris"; "Paris"], ["Paris"; "1945"]) /\
  rag steady_endpoint two_instance_dataset world0 = (Raise ValueError, world0).
Proof.
  split; [vm_compute; reflexivity|].
  exact (proj1 (two_instance_pool_run steady_endpoint world0)).
Defined.

(** C3 (as the spec has it) fails on the code: on the two-instance pool
    [rag] sends no request and returns no pairs. *)
Lemma rag_two_instance_pool_raises :
  rag steady_endpoint two_instance_dataset world0
    = (Raise ValueError, world0) /\
  requests (rag steady_endpoint two_instance_dataset world0).2 = [] /\
  ~ (exists predA predB w',
       rag steady_endpoint two_instance_dataset world0
         = (Ok ([predA; predB], ["Paris"; "1945"]), w') /\
       length (requests w') = 2).
Proof.
  assert (Hrun : rag steady_endpoint two_instance_dataset world0
                 = (Raise ValueError, world0)).
  { apply (rag_small_pool _ _ (mkSubset [instance_A; instance_B]));
      [apply two_instance_lookup|simpl; lia]. }
  rewrite Hrun. split; [done|]. split; [done|].
  intros (predA & predB & w' & Heq & _). discriminate.
Qed.

(** ** Further properties of the sampler *)

Section SamplerExtras.

Context `{RandomSource}.

(** X1: [generate_shots] raises [ValueError] exactly when the requested count
    is negative or above the pool size: outside the range it raises it and
    leaves the world alone, inside the range its outcome is never that
    exception. *)
Theorem generate_shots_value_error_iff
    (dataset : Dataset) (subset : Subset) (k : Z) (w : World) :
  dataset !! "entire" = Some subset ->
  (generate_shots dataset k w).1 = Raise ValueError <->
  (k < 0 \/ Z.of_nat (length (get_instances subset)) < k)%Z.
Proof.
  intros Hds. rewrite generate_shots_eq, Hds. split.
  - intros Hraise.
    destruct (decide (0 <= k <= Z.of_nat (length (get_instances subset)))%Z)
      as [Hk|Hk]; [|lia].
    destruct (random_sample_in_range (get_instances subset) k w Hk)
      as (positions & g & examples & Hs & _).
    rewrite Hs in Hraise. by destruct (decide _).
  - intros Hk. rewrite random_sample_out_of_range by lia. done.
Qed.

(** X2: for a count in range the sampler draws its exemplars first and then
    renders them: it returns their pairs when each of them has a candidate
    answer, and raises [IndexError] otherwise, the generator having moved
    on in both cases. *)
Theorem generate_shots_answerless_exemplar
    (dataset : Dataset) (subset : Subset) (k : Z) (w : World) :
  dataset !! "entire" = Some subset ->
  (0 <= k <= Z.of_nat (length (get_instances subset)))%Z ->
  exists examples w',
    random_sample (get_instances subset) k w = (Ok examples, w') /\
    ((Forall has_answer examples /\
      generate_shots dataset k w = (Ok (examples ≫= exemplar_pair), w')) \/
     (Exists (fun example => answers example = []) examples /\
      generate_shots dataset k w = (Raise IndexError, w'))).
Proof.
  intros Hds Hk.
  destruct (random_sample_in_range (get_instances subset) k w Hk)
    as (positions & g & examples & Hs & _).
  exists examples. eexists. split; [exact Hs|].
  rewrite generate_shots_eq, Hds, Hs.
  destruct (decide (Forall has_answer examples)) as [Hall|Hnot]; [by left|].
  right. split; [|done].
  apply not_Forall_Exists in Hnot; [|intros x; apply _].
  eapply Exists_impl; [exact Hnot|].
  intros example Hno.
  destruct (answers example) as [|first rest] eqn:Ha; [done|].
  destruct Hno. red. rewrite Ha. by eexists.
Qed.

(** X3: whatever its outcome, the sampler sends no request and prints
    nothing: of the world it changes the generator only. *)
Theorem generate_shots_only_draws
    (dataset : Dataset) (k : Z) (w : World) :
  requests (generate_shots dataset k w).2 = requests w /\
  stdout (generate_shots dataset k w).2 = stdout w.
Proof.
  destruct (generate_shots dataset k w) as [r w'] eqn:Hrun.
  exact (generate_shots_world _ _ _ _ _ Hrun).
Qed.

End SamplerExtras.

(** ** Further properties of the evaluation loop *)

Section LoopExtras.

Context `{RandomSource}.
Variable endpoint : Endpoint.

(** Reading a list at all of its positions, in order, gives the list. *)
Lemma omap_lookup_seq {A} (pre xs : list A) :
  omap (fun i => (pre ++ xs) !! i) (seq (length pre) (length xs)) = xs.
Proof.
  revert pre. induction xs as [|x xs IH]; intros pre; [done|].
  simpl. rewrite list_lookup_middle by done. f_equal.
  specialize (IH (pre ++ [x])).
  rewrite <- app_assoc, length_app in IH. simpl in IH.
  by replace (length pre + 1) with (S (length pre)) in IH by lia.
Qed.

(** Drawing as many positions as the population has reaches every element
    exactly once. *)
Lemma sampled_all_Permutation {A} (population : list A)
    (positions : list nat) (examples : list A) :
  NoDup positions ->
  length positions = length population ->
  Forall2 (fun i x => population !! i = Some x) positions examples ->
  examples ≡ₚ population.
Proof.
  intros Hnodup Hlen Hex.
  assert (Hperm : positions ≡ₚ seq 0 (length population)).
  { apply submseteq_length_Permutation; [|rewrite length_seq; lia].
    apply NoDup_submseteq; [done|]. intros i Hi.
    apply list_elem_of_lookup in Hi as [j Hj].
    destruct (Forall2_lookup_l _ _ _ _ _ Hex Hj) as (x & _ & Hx).
    apply lookup_lt_Some in Hx. apply elem_of_seq. lia. }
  assert (Hom : examples = omap (fun i => population !! i) positions).
  { clear Hnodup Hlen Hperm.
    induction Hex as [|i x positions examples Hx _ IH]; [done|].
    simpl. rewrite Hx. by f_equal. }
  rewrite Hom, Hperm.
  pose proof (omap_lookup_seq [] population) as Hall. simpl in Hall.
  by rewrite Hall.
Qed.

(** X4: asked for as many exemplars as the pool has instances, the sampler
    returns the pairs of the whole pool, each instance once, in the order
    drawn. *)
Theorem generate_shots_whole_pool
    (dataset : Dataset) (subset : Subset) (w : World) :
  dataset !! "entire" = Some subset ->
  Forall has_answer (get_instances subset) ->
  exists examples w',
    generate_shots dataset (Z.of_nat (length (get_instances subset))) w
      = (Ok (examples ≫= exemplar_pair), w') /\
    examples ≡ₚ get_instances subset.
Proof.
  intros Hds Hall.
  destruct (generate_shots_in_range dataset subset
              (Z.of_nat (length (get_instances subset))) w Hds Hall
              ltac:(lia))
    as (positions & examples & w' & Hrun & Hlen & Hnodup & Hex).
  exists examples, w'. split; [done|].
  apply (sampled_all_Permutation _ positions); [done| |done].
  apply Forall2_length in Hex. lia.
Qed.

(** The requests of a run pair up with the instances visited, and the
    exemplar messages of each satisfy whatever holds of every list the
    sampler returns. *)
Lemma rag_loop_shots (P : list Message -> Prop) (dataset : Dataset) (k : Z) :
  (forall w shots w',
     generate_shots dataset k w = (Ok shots, w') -> P shots) ->
  forall (instances : list Instance) (acc : list string * list string)
         (w w' : World) (r : result (list string * list string)),
  for_each instances acc (rag_body endpoint dataset k) w = (r, w') ->
  exists sent visited,
    requests w' = requests w ++ sent /\
    visited `prefix_of` instances /\
    Forall2 (fun instance request =>
               exists shots,
                 P shots /\
                 request = mkRequest model_name
                             ([mkMessage "system" system_prompt] ++ shots
                              ++ [user_message instance]))
            visited sent.
Proof.
  intros HP instances.
  induction instances as [|instance instances IH]; intros acc w w' r.
  - intros [= <- <-]. exists [], []. rewrite app_nil_r.
    split_and!; [done|done|constructor].
  - change (for_each (instance :: instances) acc (rag_body endpoint dataset k) w)
      with ((rag_body endpoint dataset k instance acc
               ≫= fun acc' => for_each instances acc'
                                (rag_body endpoint dataset k)) w).
    rewrite bind_eq. destruct acc as [ps ts]. rewrite rag_body_eq.
    destruct (generate_shots dataset k w) as [[shots|e] w1] eqn:Hshots;
      pose proof (generate_shots_world _ _ _ _ _ Hshots) as [Hreq _].
    2:{ intros [= <- <-]. exists [], []. rewrite app_nil_r, Hreq.
        split_and!; [done|apply prefix_nil|constructor]. }
    apply HP in Hshots.
    destruct (head (answers instance)) as [first|].
    2:{ intros [= <- <-]. exists [], []. rewrite app_nil_r, Hreq.
        split_and!; [done|apply prefix_nil|constructor]. }
    cbv zeta.
    set (request := mkRequest model_name _).
    assert (Hone :
              exists sent visited,
                requests (mkWorld (random w1) (requests w1 ++ [request])
                            (stdout w1)) = requests w ++ sent /\
                visited `prefix_of` instance :: instances /\
                Forall2 (fun instance request =>
                           exists shots,
                             P shots /\
                             request = mkRequest model_name
                                         ([mkMessage "system" system_prompt]
                                          ++ shots ++ [user_message instance]))
                        visited sent).
    { exists [request], [instance]. simpl. rewrite Hreq.
      split_and!; [done|apply prefix_cons, prefix_nil|].
      constructor; [by exists shots|constructor]. }
    destruct (endpoint _ _) as [reply|e]; [|by intros [= <- <-]].
    destruct (reply_text reply) as [text|e]; [|by intros [= <- <-]].
    intros Hrest. apply IH in Hrest as (sent & visited & Hreq' & Hpre & Hall).
    exists (request :: sent), (instance :: visited). split_and!.
    + rewrite Hreq'. simpl. rewrite Hreq. by rewrite <- app_assoc.
    + by apply prefix_cons.
    + constructor; [by exists shots|done].
Qed.

(** X5: on a pool of exactly five instances every request carries the pairs of
    the whole pool as its exemplars, the pair of the instance being asked
    about among them: sampling does not set the target aside. *)
Theorem rag_exemplars_include_target
    (dataset : Dataset) (subset : Subset) (w : World) :
  dataset !! "entire" = Some subset ->
  length (get_instances subset) = 5 ->
  exists sent,
    requests (rag endpoint dataset w).2 = requests w ++ sent /\
    forall (i : nat) (request : Request),
      sent !! i = Some request ->
      exists target examples,
        get_instances subset !! i = Some target /\
        examples ≡ₚ get_instances subset /\
        target ∈ examples /\
        messages request
          = [mkMessage "system" system_prompt]
            ++ (examples ≫= exemplar_pair) ++ [user_message target].
Proof.
  intros Hds Hfive. unfold rag, rag_with. rewrite bind_eq.
  unfold lift, getitem. rewrite Hds.
  destruct (for_each _ _ _ _) as [r w'] eqn:Hrun.
  apply (rag_loop_shots
           (fun shots => exists examples,
              shots = examples ≫= exemplar_pair /\
              examples ≡ₚ get_instances subset)) in Hrun.
  - destruct Hrun as (sent & visited & Hreq & Hpre & Hall).
    exists sent. split; [done|]. intros i request Hi.
    destruct (Forall2_lookup_r _ _ _ _ _ Hall Hi)
      as (target & Ht & shots & (examples & -> & Hperm) & ->).
    pose proof (prefix_lookup_Some _ _ _ _ Ht Hpre) as Hpool.
    exists target, examples. split_and!; [done|done| |done].
    rewrite Hperm. by eapply list_elem_of_lookup_2.
  - intros w0 shots w1. rewrite generate_shots_eq, Hds.
    destruct (random_sample_in_range (get_instances subset) 5 w0
                ltac:(lia))
      as (positions & g & examples & Hs & Hnodup & Hlen & Hex).
    rewrite Hs. destruct (decide _); [|done]. intros [= <- <-].
    exists examples. split; [done|].
    apply (sampled_all_Permutation _ positions); [done|lia|done].
Qed.

End LoopExtras.

(** ** Trimming *)





Section ReturnExtras.

Context `{RandomSource}.
Variable endpoint : Endpoint.

(** What a run of [rag] that returns has done. *)
Lemma rag_Ok_spec (dataset : Dataset) (subset : Subset) (w w' : World)
    (predicted_answers ground_truths : list string) :
  dataset !! "entire" = Some subset ->
  rag endpoint dataset w = (Ok (predicted_answers, ground_truths), w') ->
  stdout w' = stdout w /\
  length predicted_answers = length (get_instances subset) /\
  (exists firsts,
     ground_truths = answer <$> firsts /\
     Forall2 (fun instance first => head (answers instance) = Some first)
             (get_instances subset) firsts) /\
  exists sent,
    requests w' = requests w ++ sent /\
    Forall2 (fun instance request =>
               exists examples,
                 request = request_for instance examples /\
                 exemplars_of (get_instances subset) 5 examples)
            (get_instances subset) sent.
Proof.
  intros Hds. unfold rag, rag_with. rewrite bind_eq.
  unfold lift, getitem. rewrite Hds. intros Hrun.
  apply (rag_loop_spec _ _ _ _ Hds) in Hrun
    as (Hout & sent & visited & Hreq & _ & Hall & Hok).
  destruct (Hok _ eq_refl) as (-> & preds & firsts & [= -> ->] & Hlen & Hf).
  split_and!; [done|done|by exists firsts|by exists sent].
Qed.


(** X7: The pool must hold five instances for [rag] to get anywhere: on an
    empty pool it returns two empty lists, and on a pool of one to four
    instances it raises [ValueError] in its first pass; in both cases no
    request is sent and the generator is not used. *)
Theorem rag_pool_below_five
    (dataset : Dataset) (subset : Subset) (w : World) :
  dataset !! "entire" = Some subset ->
  length (get_instances subset) < 5 ->
  rag endpoint dataset w
    = (match get_instances subset with
       | [] => Ok ([], [])
       | _ :: _ => Raise ValueError
       end, w).
Proof.
  intros Hds Hlen.
  destruct (get_instances subset) as [|instance instances] eqn:Hpool.
  - unfold rag, rag_with. rewrite bind_eq.
    unfold lift, getitem. by rewrite Hds, Hpool.
  - apply (rag_small_pool _ _ subset); [done|].
    rewrite Hpool. simpl in *. lia.
Qed.



End ReturnExtras.

(** ** The dataset, the hints and the whole pipeline *)

Section PipelineExtras.

Context `{RandomSource}.
Variable download_and_load_dataset : string -> result Dataset.
Variable answer_agnostic_generate :
  list Instance -> result (nat -> Instance -> Instance).
Variable endpoint : Endpoint.

Lemma copy_loop (body : Instance -> Dataset -> M Dataset) :
  (forall instance (dataset : Dataset) w,
     body instance dataset w =
     match dataset !! "entire" with
     | Some subset =>
         (Ok (<["entire" := add_instance subset (without_hints instance)]>
                dataset), w)
     | None => (Raise KeyError, w)
     end) ->
  forall (instances : list Instance) (dataset : Dataset) (subset : Subset)
         (w : World),
  dataset !! "entire" = Some subset ->
  for_each instances dataset body w
  = (Ok (<["entire" := mkSubset (get_instances subset
                                   ++ (without_hints <$> instances))]>
           dataset), w).
Proof.
  intros Hbody instances.
  induction instances as [|instance instances IH];
    intros dataset subset w Hds.
  - simpl. rewrite app_nil_r. destruct subset. by rewrite insert_id.
  - change (for_each (instance :: instances) dataset body w)
      with ((body instance dataset
               ≫= fun acc' => for_each instances acc' body) w).
    rewrite bind_eq, Hbody, Hds.
    rewrite (IH _ (add_instance subset (without_hints instance)))
      by apply lookup_insert_eq.
    rewrite insert_insert_eq. unfold add_instance. simpl.
    by rewrite <- app_assoc.
Qed.

(** [generating_dataset], outcome by outcome. *)
Lemma generating_dataset_eq (w : World) :
  generating_dataset download_and_load_dataset w =
  (match download_and_load_dataset "KG-Hint" with
   | Raise e => Raise e
   | Ok kg_dataset =>
       match kg_dataset !! "entire" with
       | None => Raise KeyError
       | Some kg_subset =>
           Ok {[ "entire" := mkSubset (selected (get_instances kg_subset)) ]}
       end
   end, w).
Proof.
  unfold generating_dataset. rewrite bind_eq. unfold lift at 1.
  destruct (download_and_load_dataset "KG-Hint") as [kg_dataset|e]; [|done].
  rewrite bind_eq. unfold lift at 1, getitem at 1.
  destruct (kg_dataset !! "entire") as [kg_subset|]; [|done].
  match goal with |- context [for_each _ _ ?body _] =>
    erewrite (copy_loop body) end.
  2:{ intros instance dataset w0. rewrite bind_eq. unfold lift, getitem.
      by destruct (dataset !! "entire"). }
  2:{ unfold add_subset, Subset_new, Dataset_new. simpl.
      apply lookup_insert_eq. }
  unfold add_subset, Subset_new, Dataset_new, selected. simpl.
  by rewrite insert_insert_eq, insert_empty.
Qed.

(** [generate_hints], outcome by outcome. *)
Lemma generate_hints_eq (dataset : Dataset) (w : World) :
  generate_hints answer_agnostic_generate dataset w =
  (match dataset !! "entire" with
   | None => Raise KeyError
   | Some subset =>
       match answer_agnostic_generate (get_instances subset) with
       | Raise e => Raise e
       | Ok update =>
           Ok (<["entire" := mkSubset (imap update (get_instances subset))]>
                 dataset)
       end
   end, w).
Proof.
  unfold generate_hints. rewrite bind_eq. unfold lift at 1, getitem.
  destruct (dataset !! "entire") as [subset|]; [|done].
  rewrite bind_eq. unfold lift.
  by destruct (answer_agnostic_generate (get_instances subset)).
Qed.


Lemma slice_lookup {A} (start stop i : nat) (xs : list A) :
  slice start stop xs !! i
  = if decide (i < stop - start) then xs !! (start + i) else None.
Proof.
  unfold slice. destruct (decide (i < stop - start)).
  - by rewrite lookup_take_lt, lookup_drop.
  - apply lookup_ge_None. rewrite length_take. lia.
Qed.





(** [pipeline], stage by stage, once the source dataset has arrived. *)
Lemma pipeline_eq (kg_dataset : Dataset) (kg_subset : Subset) (w : World) :
  download_and_load_dataset "KG-Hint" = Ok kg_dataset ->
  kg_dataset !! "entire" = Some kg_subset ->
  pipeline download_and_load_dataset answer_agnostic_generate endpoint w =
  match answer_agnostic_generate (selected (get_instances kg_subset)) with
  | Raise e => (Raise e, w)
  | Ok update =>
      match rag endpoint
              {[ "entire" :=
                   mkSubset (imap update
                               (selected (get_instances kg_subset))) ]} w with
      | (Raise e, w1) => (Raise e, w1)
      | (Ok (predicted_answers, ground_truths), w1) =>
          print_result_table predicted_answers ground_truths w1
      end
  end.
Proof.
  intros Hload Hkg. unfold pipeline.
  rewrite bind_eq, generating_dataset_eq, Hload, Hkg.
  rewrite bind_eq, generate_hints_eq, lookup_singleton_eq. simpl.
  destruct (answer_agnostic_generate _) as [update|e]; [|done].
  rewrite insert_singleton_eq, bind_eq.
  by destruct (rag _ _ _) as [[[ps ts]|e] w1].
Qed.


(** X12: if hint generation leaves the answers of every instance as they were,
    the Ground Truth cell of row [i] of the printed table is the first
    answer of the source instance at position [10 + i]. *)
Theorem pipeline_ground_truths
    (kg_dataset : Dataset) (kg_subset : Subset) (w w' : World)
    (table_rows : list (list string)) (before : list printed) :
  (forall batch update i instance,
     answer_agnostic_generate batch = Ok update ->
     answers (update i instance) = answers instance) ->
  download_and_load_dataset "KG-Hint" = Ok kg_dataset ->
  kg_dataset !! "entire" = Some kg_subset ->
  pipeline download_and_load_dataset answer_agnostic_generate endpoint w
    = (Ok tt, w') ->
  stdout w'
    = before ++ [Table (mkTable ["Predicted"; "Ground Truth"] table_rows)] ->
  forall (i : nat) (row : list string),
    table_rows !! i = Some row ->
    exists source first predicted,
      get_instances kg_subset !! (10 + i) = Some source /\
      head (answers source) = Some first /\
      row = [predicted; answer first].
Proof.
  intros Hkeep Hload Hkg. rewrite (pipeline_eq _ _ _ Hload Hkg).
  destruct (answer_agnostic_generate _) as [update|e] eqn:Hgen; [|done].
  set (dataset := {[ "entire" := _ ]}).
  assert (Hds : dataset !! "entire"
                = Some (mkSubset (imap update
                                    (selected (get_instances kg_subset)))))
    by apply lookup_singleton_eq.
  destruct (rag endpoint dataset w) as [[[ps ts]|e] w1] eqn:Hrag; [|done].
  rewrite print_result_table_eq. intros [= <-]. simpl.
  replace (stdout w1 ++
           [EmptyLine;
            Table (mkTable ["Predicted"; "Ground Truth"]
                     ((fun r => [r.1; r.2]) <$> zip ps ts))])
    with ((stdout w1 ++ [EmptyLine]) ++
          [Table (mkTable ["Predicted"; "Ground Truth"]
                    ((fun r => [r.1; r.2]) <$> zip ps ts))])
    by (by rewrite <- app_assoc).
  intros Heq. apply app_inj_tail in Heq as [_ [= <-]].
  intros i row Hi.
  destruct (rag_Ok_spec _ _ _ _ _ _ _ Hds Hrag)
    as (_ & _ & (firsts & -> & Hfirsts) & _).
  simpl in Hfirsts.
  rewrite list_lookup_fmap in Hi.
  destruct (zip ps (answer <$> firsts) !! i) as [[predicted truth]|] eqn:Hz;
    [|done].
  injection Hi as <-. simpl.
  apply lookup_zip_with_Some in Hz
    as (predicted' & truth' & [= <- <-] & _ & Ht).
  rewrite list_lookup_fmap in Ht.
  destruct (firsts !! i) as [first|] eqn:Hf; [|done].
  injection Ht as <-.
  destruct (Forall2_lookup_r _ _ _ _ _ Hfirsts Hf)
    as (instance & Hinst & Hhead).
  rewrite list_lookup_imap in Hinst. unfold selected in Hinst.
  rewrite list_lookup_fmap, slice_lookup in Hinst.
  destruct (decide (i < 30 - 10)); [|done].
  destruct (get_instances kg_subset !! (10 + i)) as [source|] eqn:Hsrc;
    [|done].
  simpl in Hinst. injection Hinst as <-.
  rewrite (Hkeep _ _ _ _ Hgen) in Hhead. simpl in Hhead.
  by exists source, first, predicted.
Qed.



End PipelineExtras.

(** ** Further properties of the prompt *)

Lemma append_length (a b : string) :
  String.length (a +:+ b) = String.length a + String.length b.
Proof.
  induction a as [|ch a IH]; [done|].
  rewrite append_cons. simpl. by rewrite IH.
Qed.

Lemma append_inj_r (a b s : string) : a +:+ s = b +:+ s -> a = b.
Proof.
  revert b. induction a as [|ch a IH]; intros [|ch' b] Heq.
  - done.
  - apply (f_equal String.length) in Heq.
    rewrite append_nil_l, append_cons in Heq. simpl in Heq.
    rewrite append_length in Heq. lia.
  - apply (f_equal String.length) in Heq.
    rewrite append_nil_l, append_cons in Heq. simpl in Heq.
    rewrite append_length in Heq. lia.
  - rewrite !append_cons in Heq. injection Heq as -> Heq.
    f_equal. by apply IH.
Qed.

(** X15: The prompt determines the question once the context is known, and the
    context once the question is known, but not the two together: a
    context that itself contains the lines that open the question block
    gives the same prompt as a shorter context with a longer question. *)
Theorem generate_prompt_injectivity :
  (forall question question' context,
     generate_prompt question context = generate_prompt question' context ->
     question = question') /\
  (forall question context context',
     generate_prompt question context = generate_prompt question context' ->
     context = context') /\
  (let divider := nl +:+ nl +:+ "    Question:" +:+ nl +:+ "    " in
   generate_prompt "x" ("a" +:+ divider +:+ "b")
   = generate_prompt ("b" +:+ divider +:+ "x") "a").
Proof.
  split_and!.
  - intros question question' context Heq. unfold generate_prompt in Heq.
    repeat apply (inj (String.app _)) in Heq.
    by apply append_inj_r in Heq.
  - intros question context context' Heq. unfold generate_prompt in Heq.
    do 5 apply (inj (String.app _)) in Heq.
    by apply append_inj_r in Heq.
  - vm_compute. reflexivity.
Qed.

(** ** The further properties at concrete inputs *)

Lemma generate_shots_value_error_iff_witness :
  (generate_shots two_instance_dataset (-1) world0).1 = Raise ValueError <->
  (-1 < 0 \/ Z.of_nat (length [instance_A; instance_B]) < -1)%Z.
Proof.
  apply (generate_shots_value_error_iff two_instance_dataset
           (mkSubset [instance_A; instance_B]) (-1) world0).
  reflexivity.
Defined.

Lemma generate_shots_answerless_exemplar_witness :
  generate_shots answerless_dataset 2 world0
    = (Raise IndexError, (generate_shots answerless_dataset 2 world0).2) /\
  exists examples w',
    random_sample [instance_N; instance_A] 2 world0 = (Ok examples, w') /\
    ((Forall has_answer examples /\
      generate_shots answerless_dataset 2 world0
        = (Ok (examples ≫= exemplar_pair), w')) \/
     (Exists (fun example => answers example = []) examples /\
      generate_shots answerless_dataset 2 world0 = (Raise IndexError, w'))).
Proof.
  split; [vm_compute; reflexivity|].
  apply (generate_shots_answerless_exemplar answerless_dataset
           (mkSubset [instance_N; instance_A]) 2 world0).
  - reflexivity.
  - simpl. lia.
Defined.

Lemma generate_shots_whole_pool_witness :
  exists examples w',
    generate_shots five_instance_dataset
      (Z.of_nat (length five_instances)) world0
      = (Ok (examples ≫= exemplar_pair), w') /\
    examples ≡ₚ five_instances.
Proof.
  apply (generate_shots_whole_pool five_instance_dataset
           (mkSubset five_instances) world0).
  - reflexivity.
  - repeat constructor; by eexists.
Defined.

Lemma rag_exemplars_include_target_witness :
  exists sent,
    requests (rag steady_endpoint five_instance_dataset world0).2
      = requests world0 ++ sent /\
    forall (i : nat) (request : Request),
      sent !! i = Some request ->
      exists target examples,
        five_instances !! i = Some target /\
        examples ≡ₚ five_instances /\
        target ∈ examples /\
        messages request
          = [mkMessage "system" system_prompt]
            ++ (examples ≫= exemplar_pair) ++ [user_message target].
Proof.
  apply (rag_exemplars_include_target steady_endpoint five_instance_dataset
           (mkSubset five_instances) world0).
  - reflexivity.
  - reflexivity.
Defined.


Lemma rag_pool_below_five_witness :
  rag steady_endpoint two_instance_dataset world0
    = (Raise ValueError, world0).
Proof.
  apply (rag_pool_below_five steady_endpoint two_instance_dataset
           (mkSubset [instance_A; instance_B]) world0).
  - reflexivity.
  - simpl. lia.
Defined.





Lemma pipeline_ground_truths_witness :
  exists w' table_rows,
    pipeline (kg_download sixteen_instances) one_hint_generate
      steady_endpoint world0 = (Ok tt, w') /\
    stdout w'
      = [EmptyLine]
        ++ [Table (mkTable ["Predicted"; "Ground Truth"] table_rows)] /\
    table_rows !! 5 = Some ["Paris"; "Paris"] /\
    forall (i : nat) (row : list string),
      table_rows !! i = Some row ->
      exists source first predicted,
        sixteen_instances !! (10 + i) = Some source /\
        head (answers source) = Some first /\
        row = [predicted; answer first].
Proof.
  eexists _, _. split; [vm_compute; reflexivity|].
  split; [vm_compute; reflexivity|].
  split; [reflexivity|].
  eapply (pipeline_ground_truths (kg_download sixteen_instances)
            one_hint_generate steady_endpoint
            {[ "entire" := mkSubset sixteen_instances ]}
            (mkSubset sixteen_instances) world0 _ _ [EmptyLine]).
  - intros batch update i instance [= <-]. reflexivity.
  - reflexivity.
  - reflexivity.
  - vm_compute. reflexivity.
  - vm_compute. reflexivity.
Defined.


